(** * scripts/run_migrations.py: the migration runner

    A shallow embedding of the script and the properties its specification
    states.  The script talks to two things outside itself: the local
    filesystem (through [Path.exists], [open] and [read]) and the hosted
    database (through [supabase.rpc(...).execute()]).  Both are modelled as
    state, every operation the script performs on them is recorded as an
    event, and an exception is a value that a computation may end in. *)

From Stdlib Require Import String Ascii List ZArith Lia Bool.
From stdpp Require Import base option list gmap strings pretty.

Open Scope string_scope.
Open Scope list_scope.

(** ** Python values the script handles *)

(** An instance of Python's [Exception] class: what [except Exception as e]
    binds to [e].  Only its class name and the text [str(e)] are ever used. *)
Record Exception := mkException { exc_class : string; exc_message : string }.

(** [str(e)] *)
Definition str (e : Exception) : string := exc_message e.

(** How a statement ends: normally with a value, or by raising. *)
Inductive Result (A : Type) : Type :=
| Ok (a : A)
| Raise (e : Exception).
Arguments Ok {A} a.
Arguments Raise {A} e.

(** The three ways [run_migration] returns, named as in the specification
    (section 4.1).  The Python function returns only [success o]. *)
Inductive Outcome :=
| Applied
| SkippedMissing
| Failed (reason : string).

(** The [bool] each [return] statement of [run_migration] gives back:
    [return True] after the "skipping" line and after the check mark,
    [return False] in the exception handler. *)
Definition success (o : Outcome) : bool :=
  match o with
  | Applied | SkippedMissing => true
  | Failed _ => false
  end.

(** ** The local filesystem *)

(** What a path names.  A regular file carries whether the process may open it
    for reading and what [f.read()] in text mode gives: the decoded text, or
    the exception the default decoding raises. *)
Inductive Node :=
| Directory
| Regular (readable : bool) (text : Result string).

Abbreviation FileSystem := (gmap string Node).

Definition FileNotFoundError (path : string) : Exception :=
  mkException "FileNotFoundError" ("[Errno 2] No such file or directory: '" ++ path ++ "'").
Definition IsADirectoryError (path : string) : Exception :=
  mkException "IsADirectoryError" ("[Errno 21] Is a directory: '" ++ path ++ "'").
Definition PermissionError (path : string) : Exception :=
  mkException "PermissionError" ("[Errno 13] Permission denied: '" ++ path ++ "'").
Definition ValueError (mode : string) : Exception :=
  mkException "ValueError" ("invalid mode: '" ++ mode ++ "'").
Definition UnsupportedOperation : Exception :=
  mkException "UnsupportedOperation" "not readable".

(** The file object [open] returns. *)
Record TextIO := mkTextIO { io_path : string; io_mode : string; io_text : Result string }.

(** [open(path, mode)] on a filesystem: the file object or the exception, and
    the filesystem afterwards.  Mode ['r'] changes nothing; mode ['w'] creates
    or truncates the file.  The script only ever passes ['r']. *)
Definition open_on (fsys : FileSystem) (path mode : string) : Result TextIO * FileSystem :=
  if String.eqb mode "r" then
    match fsys !! path with
    | None => (Raise (FileNotFoundError path), fsys)
    | Some Directory => (Raise (IsADirectoryError path), fsys)
    | Some (Regular false _) => (Raise (PermissionError path), fsys)
    | Some (Regular true t) => (Ok (mkTextIO path mode t), fsys)
    end
  else if String.eqb mode "w" then
    match fsys !! path with
    | Some Directory => (Raise (IsADirectoryError path), fsys)
    | Some (Regular false _) => (Raise (PermissionError path), fsys)
    | _ => (Ok (mkTextIO path mode (Ok "")), <[path := Regular true (Ok "")]> fsys)
    end
  else (Raise (ValueError mode), fsys).

(** What [with open(path, 'r') as f: sql = f.read()] ends in, as a function of
    the node the path names. *)
Definition read_text (path : string) (n : Node) : Result string :=
  match n with
  | Directory => Raise (IsADirectoryError path)
  | Regular false _ => Raise (PermissionError path)
  | Regular true t => t
  end.

(** ** Events *)

(** Everything the script does that is visible outside it, in the order it
    happens.  [EvCall] and [EvReturn] mark the entry into [run_migration] and
    the [return] statement it leaves by; the others are the operations on the
    filesystem, the remote call and the console. *)
Inductive Event :=
| EvCall (filename : string)
| EvReturn (filename : string) (o : Outcome)
| EvExists (path : string) (found : bool)
| EvOpen (path mode : string)
| EvRead (path : string)
| EvRpc (fn : string) (params : list (string * string)) (failed : option Exception)
| EvPrint (line : string).

(** The filenames [run_migration] was invoked with. *)
Definition calls (t : list Event) : list string :=
  omap (fun ev => match ev with EvCall f => Some f | _ => None end) t.

(** The outcomes [run_migration] returned with. *)
Definition returns (t : list Event) : list (string * Outcome) :=
  omap (fun ev => match ev with EvReturn f o => Some (f, o) | _ => None end) t.

(** The remote calls made: function name and parameters. *)
Definition rpcs (t : list Event) : list (string * list (string * string)) :=
  omap (fun ev => match ev with EvRpc fn ps _ => Some (fn, ps) | _ => None end) t.

(** The lines printed. *)
Definition printed (t : list Event) : list string :=
  omap (fun ev => match ev with EvPrint s => Some s | _ => None end) t.

(** The filename of the invocation each remote call was made in: a remote call
    belongs to the latest [EvCall] before it. *)
Fixpoint rpc_owners (cur : option string) (t : list Event) : list (option string) :=
  match t with
  | [] => []
  | EvCall f :: t' => rpc_owners (Some f) t'
  | EvRpc _ _ _ :: t' => cur :: rpc_owners cur t'
  | _ :: t' => rpc_owners cur t'
  end.

(** An event that leaves the local machine's persistent state as it is: an
    existence check, opening for reading, reading, printing, and the remote
    call (whose effect is remote). *)
Definition local_read_only (ev : Event) : bool :=
  match ev with
  | EvOpen _ mode => String.eqb mode "r"
  | _ => true
  end.

(** The events of [with open(path, 'r') as f: sql = f.read()] on a node. *)
Definition read_events (path : string) (n : Node) : list Event :=
  EvOpen path "r" :: match n with Regular true _ => [EvRead path] | _ => [] end.

(** * The script *)

(** What the script is run against.  [Remote] is the hosted database as the
    script sees it through the client created at import time from
    [SUPABASE_URL] and [SUPABASE_SERVICE_KEY]: some state, and what
    [supabase.rpc(fn, params).execute()] does to it.  The call ends in the
    response body or in an exception (rejected query, missing permission, no
    connection, timeout), and the remote state may have changed in either
    case.  [migrations_dir] is
    [Path(__file__).parent.parent / "supabase" / "migrations"] and [joinpath]
    is pathlib's [/]. *)
Class Environment := {
  Remote : Type;
  rpc_execute : Remote -> string -> list (string * string) -> Remote * Result string;
  migrations_dir : string;
  joinpath : string -> string -> string
}.

Section Statements.
Context `{Environment}.

(** ** State and the statement monad *)

Record World := mkWorld { fs : FileSystem; remote : Remote }.

(** What running a statement gives: how it ended, the world afterwards and
    the events it performed, oldest first. *)
Record Run (A : Type) := Ran { result : Result A; world : World; events : list Event }.
Arguments Ran {A} result world events.
Arguments result {A} r.
Arguments world {A} r.
Arguments events {A} r.

Definition Py (A : Type) : Type := World -> Run A.

Definition ret {A} (a : A) : Py A := fun w => Ran (Ok a) w [].

(** Sequencing: an exception skips the rest. *)
Definition bind {A B} (m : Py A) (k : A -> Py B) : Py B := fun w =>
  match m w with
  | Ran (Ok a) w1 t1 =>
      match k a w1 with
      | Ran r w2 t2 => Ran r w2 (t1 ++ t2)
      end
  | Ran (Raise e) w1 t1 => Ran (Raise e) w1 t1
  end.

(** [try: body  except Exception as e: handler(e)] *)
Definition try_except {A} (body : Py A) (handler : Exception -> Py A) : Py A := fun w =>
  match body w with
  | Ran (Ok a) w1 t1 => Ran (Ok a) w1 t1
  | Ran (Raise e) w1 t1 =>
      match handler e w1 with
      | Ran r w2 t2 => Ran r w2 (t1 ++ t2)
      end
  end.

End Statements.

Arguments Ran {_ A} result world events.
Arguments result {_ A} r.
Arguments world {_ A} r.
Arguments events {_ A} r.

Declare Scope py_scope.
Delimit Scope py_scope with py.
Notation "x <- m ;; k" := (bind m (fun x => k))
  (at level 100, m at next level, right associativity) : py_scope.
Notation "m ;;; k" := (bind m (fun _ => k))
  (at level 100, right associativity) : py_scope.
Open Scope py_scope.

Section Script.
Context `{Environment}.

(** An event that changes nothing. *)
Definition emit (ev : Event) : Py unit := fun w => Ran (Ok tt) w [ev].

(** ** The operations the script uses *)

(** [print(line)] *)
Definition print (line : string) : Py unit := emit (EvPrint line).

(** [path.exists()], for a path the check answers for: [True] when the path
    names something, [False] when it names nothing.  An [OSError] that
    pathlib lets through (the lookup itself being refused) is not part of
    this filesystem. *)
Definition path_exists (path : string) : Py bool := fun w =>
  let found := match fs w !! path with Some _ => true | None => false end in
  Ran (Ok found) w [EvExists path found].

(** [open(path, mode)] *)
Definition py_open (path mode : string) : Py TextIO := fun w =>
  let '(r, fsys) := open_on (fs w) path mode in
  Ran r (mkWorld fsys (remote w)) [EvOpen path mode].

(** [f.read()] *)
Definition f_read (f : TextIO) : Py string := fun w =>
  Ran (if String.eqb (io_mode f) "r" then io_text f else Raise UnsupportedOperation)
      w [EvRead (io_path f)].

(** [with open(path, mode) as f: body(f)]; closing the file is not observable
    here. *)
Definition with_open {A} (path mode : string) (body : TextIO -> Py A) : Py A :=
  f <- py_open path mode ;; body f.

(** [supabase.rpc(fn, params).execute()] *)
Definition rpc (fn : string) (params : list (string * string)) : Py string := fun w =>
  let '(remote', r) := rpc_execute (remote w) fn params in
  Ran r (mkWorld (fs w) remote')
      [EvRpc fn params (match r with Ok _ => None | Raise e => Some e end)].

(** ** [run_migration] *)

Definition nl : string := String (ascii_of_nat 10) EmptyString.

Definition skipped_line (filename : string) : string :=
  "   ⏭️  " ++ filename ++ " - File not found, skipping".
Definition applied_line (filename : string) : string :=
  "   ✅ " ++ filename.
Definition failed_line (filename reason : string) : string :=
  "   ❌ " ++ filename ++ " - Error: " ++ reason.

(** [return]: the outcome is recorded, the caller gets the [bool]. *)
Definition return_ (filename : string) (o : Outcome) : Py bool :=
  emit (EvReturn filename o) ;;; ret (success o).

Definition run_migration (filename : string) : Py bool :=
  emit (EvCall filename) ;;;
  let filepath := joinpath migrations_dir filename in
  found <- path_exists filepath ;;
  if negb found then
    print (skipped_line filename) ;;;
    return_ filename SkippedMissing
  else
    try_except
      (sql <- with_open filepath "r" f_read ;;
       _result <- rpc "exec_sql" [("query", sql)] ;;
       print (applied_line filename) ;;;
       return_ filename Applied)
      (fun e =>
       print (failed_line filename (str e)) ;;;
       return_ filename (Failed (str e))).

(** ** [main] *)

(** The [for migration in migrations] loop followed by the rest of [main]:
    the loop leaves [main] with [return 1] at the first unsuccessful
    migration, and an exhausted list falls through to the closing lines and
    [return 0]. *)
Fixpoint main_loop (ms : list string) : Py Z :=
  match ms with
  | [] =>
      print (nl ++ "✅ All migrations completed successfully!") ;;;
      print (nl ++ "📋 Next steps:") ;;;
      print "   1. Verify tables in Supabase Dashboard" ;;;
      print "   2. Deploy Edge Functions" ;;;
      print "   3. Test the application locally: npm run dev" ;;;
      ret 0%Z
  | migration :: rest =>
      ok <- run_migration migration ;;
      if negb ok then
        print (nl ++ "❌ Migration failed: " ++ migration) ;;;
        print "Stopping migration process." ;;;
        ret 1%Z
      else main_loop rest
  end.

(** [main], over the module-level list it reads. *)
Definition main_on (ms : list string) : Py Z :=
  print ("🚀 Running database migrations..." ++ nl) ;;;
  print "   Project: xhohhxoowqlldbdcpynj" ;;;
  print ("   Total migrations: " ++ pretty (length ms) ++ nl) ;;;
  main_loop ms.

Definition migrations : list string :=
  [ "003_storage_buckets.sql";
    "004_analytics_views.sql";
    "20250104_oauth_tokens.sql";
    "20250104_speakers_tables.sql" ].

Definition main : Py Z := main_on migrations.

(** [exit(main())]: the status the process ends with.  An exception that
    leaves [main] ends the interpreter with status 1. *)
Definition exit_code (r : Run Z) : Z :=
  match result r with
  | Ok code => code
  | Raise _ => 1%Z
  end.

End Script.

(** * The shape of a run

    The traces [run_migration] and the loop of [main] can leave, stated on the
    events alone.  The lemmas of the next part show that every run has such a
    trace; the properties of traces are then proved by induction on these
    shapes. *)

Section Shapes.
Context `{Environment}.

(** The closing lines of [main] after the loop, and the two lines printed
    before [return 1]. *)
Definition closing_events : list Event :=
  [ EvPrint (nl ++ "✅ All migrations completed successfully!");
    EvPrint (nl ++ "📋 Next steps:");
    EvPrint "   1. Verify tables in Supabase Dashboard";
    EvPrint "   2. Deploy Edge Functions";
    EvPrint "   3. Test the application locally: npm run dev" ].

(** The lines [main] prints before the loop. *)
Definition opening_events (ms : list string) : list Event :=
  [ EvPrint ("🚀 Running database migrations..." ++ nl);
    EvPrint "   Project: xhohhxoowqlldbdcpynj";
    EvPrint ("   Total migrations: " ++ pretty (length ms) ++ nl) ].

Definition stopping_events (migration : string) : list Event :=
  [ EvPrint (nl ++ "❌ Migration failed: " ++ migration);
    EvPrint "Stopping migration process." ].

(** One invocation of [run_migration]: the file is missing; [open] raised;
    [read] raised; the remote call returned; the remote call raised. *)
Inductive invocation (filename : string) : Outcome -> list Event -> Prop :=
| inv_skipped :
    invocation filename SkippedMissing
      [ EvCall filename;
        EvExists (joinpath migrations_dir filename) false;
        EvPrint (skipped_line filename);
        EvReturn filename SkippedMissing ]
| inv_open_raised e :
    invocation filename (Failed (str e))
      [ EvCall filename;
        EvExists (joinpath migrations_dir filename) true;
        EvOpen (joinpath migrations_dir filename) "r";
        EvPrint (failed_line filename (str e));
        EvReturn filename (Failed (str e)) ]
| inv_read_raised e :
    invocation filename (Failed (str e))
      [ EvCall filename;
        EvExists (joinpath migrations_dir filename) true;
        EvOpen (joinpath migrations_dir filename) "r";
        EvRead (joinpath migrations_dir filename);
        EvPrint (failed_line filename (str e));
        EvReturn filename (Failed (str e)) ]
| inv_applied sql :
    invocation filename Applied
      [ EvCall filename;
        EvExists (joinpath migrations_dir filename) true;
        EvOpen (joinpath migrations_dir filename) "r";
        EvRead (joinpath migrations_dir filename);
        EvRpc "exec_sql" [("query", sql)] None;
        EvPrint (applied_line filename);
        EvReturn filename Applied ]
| inv_rpc_raised sql e :
    invocation filename (Failed (str e))
      [ EvCall filename;
        EvExists (joinpath migrations_dir filename) true;
        EvOpen (joinpath migrations_dir filename) "r";
        EvRead (joinpath migrations_dir filename);
        EvRpc "exec_sql" [("query", sql)] (Some e);
        EvPrint (failed_line filename (str e));
        EvReturn filename (Failed (str e)) ].

(** The loop of [main] over a list, with the value [main] returns. *)
Inductive loop_trace : list string -> Z -> list Event -> Prop :=
| loop_done :
    loop_trace [] 0 closing_events
| loop_next migration rest o t code t' :
    invocation migration o t ->
    success o = true ->
    loop_trace rest code t' ->
    loop_trace (migration :: rest) code (t ++ t')
| loop_stop migration rest o t :
    invocation migration o t ->
    success o = false ->
    loop_trace (migration :: rest) 1 (t ++ stopping_events migration).

(** An outcome the run continues after. *)
Definition succeeded (o : Outcome) : Prop := o = Applied \/ o = SkippedMissing.

(** Whether a path names something on a filesystem. *)
Definition present (fsys : FileSystem) (filename : string) : bool :=
  match fsys !! joinpath migrations_dir filename with
  | Some _ => true
  | None => false
  end.

(** The remote after the given calls, made in order. *)
Definition remote_after (r : Remote) (cs : list (string * list (string * string))) : Remote :=
  foldl (fun r c => (rpc_execute r c.1 c.2).1) r cs.

(** The line [run_migration] prints before it returns with an outcome. *)
Definition outcome_line (filename : string) (o : Outcome) : string :=
  match o with
  | Applied => applied_line filename
  | SkippedMissing => skipped_line filename
  | Failed reason => failed_line filename reason
  end.

(** The remote call a filename leads to on a filesystem: [exec_sql] with the
    file's text, when the path names a regular file that opens and decodes;
    none otherwise. *)
Definition submission (fsys : FileSystem) (filename : string)
  : option (string * list (string * string)) :=
  match fsys !! joinpath migrations_dir filename with
  | Some (Regular true (Ok sql)) => Some ("exec_sql"%string, [("query"%string, sql)])
  | _ => None
  end.

(** The progress lines of the invocations that returned. *)
Definition progress_lines (rs : list (string * Outcome)) : list string :=
  (fun fo => outcome_line fo.1 fo.2) <$> rs.

(** The paths an existence check found, the paths opened and the paths
    read. *)
Definition found_paths (t : list Event) : list string :=
  omap (fun ev => match ev with EvExists path true => Some path | _ => None end) t.
Definition opened_paths (t : list Event) : list string :=
  omap (fun ev => match ev with EvOpen path _ => Some path | _ => None end) t.
Definition read_paths (t : list Event) : list string :=
  omap (fun ev => match ev with EvRead path => Some path | _ => None end) t.

(** The path a filesystem operation is made on. *)
Definition accessed (ev : Event) : option string :=
  match ev with
  | EvExists path _ | EvOpen path _ | EvRead path => Some path
  | _ => None
  end.

End Shapes.

(** * A concrete environment

    A small remote and a few filesystems to run the script on: the scenarios
    of the specification's section 8 and the failure cases of the file read. *)

Module Scenario.

(** The remote keeps the queries it has executed.  It rejects a query that
    starts with [BAD] and any function other than [exec_sql]. *)
Definition execute (done : list string) (fn : string) (params : list (string * string))
  : list string * Result string :=
  match params with
  | [(name, query)] =>
      if String.eqb fn "exec_sql" && String.eqb name "query" then
        if String.prefix "BAD" query
        then (done, Raise (mkException "APIError" "syntax error at or near 'BAD'"))
        else (done ++ [query], Ok "null")
      else (done, Raise (mkException "APIError" "function not found"))
  | _ => (done, Raise (mkException "APIError" "function not found"))
  end.

Definition env : Environment := {|
  Remote := list string;
  rpc_execute := execute;
  migrations_dir := "/repo/supabase/migrations";
  joinpath := fun dir name => (dir ++ "/" ++ name)%string
|}.

Definition file (text : string) : Node := Regular true (Ok text).

(** [a.sql] and [c.sql] are there and fine, [b.sql] is missing. *)
Definition fs_b_missing : FileSystem :=
  {[ "/repo/supabase/migrations/a.sql" := file "CREATE TABLE a ();";
     "/repo/supabase/migrations/c.sql" := file "CREATE TABLE c ();" ]}.

(** All three are there, [b.sql] is rejected by the remote. *)
Definition fs_b_rejected : FileSystem :=
  {[ "/repo/supabase/migrations/a.sql" := file "CREATE TABLE a ();";
     "/repo/supabase/migrations/b.sql" := file "BAD TABLE b;";
     "/repo/supabase/migrations/c.sql" := file "CREATE TABLE c ();" ]}.

(** [b.sql] names a directory. *)
Definition fs_b_directory : FileSystem :=
  {[ "/repo/supabase/migrations/a.sql" := file "CREATE TABLE a ();";
     "/repo/supabase/migrations/b.sql" := Directory;
     "/repo/supabase/migrations/c.sql" := file "CREATE TABLE c ();" ]}.

(** [b.sql] holds bytes the default decoding refuses. *)
Definition fs_b_undecodable : FileSystem :=
  {[ "/repo/supabase/migrations/a.sql" := file "CREATE TABLE a ();";
     "/repo/supabase/migrations/b.sql" :=
       Regular true (Raise (mkException "UnicodeDecodeError"
         "'utf-8' codec can't decode byte 0xff in position 0: invalid start byte"));
     "/repo/supabase/migrations/c.sql" := file "CREATE TABLE c ();" ]}.

(** The four files of the script's own list, all present. *)
Definition fs_all_present : FileSystem :=
  {[ "/repo/supabase/migrations/003_storage_buckets.sql" := file "CREATE TABLE buckets ();";
     "/repo/supabase/migrations/004_analytics_views.sql" := file "CREATE VIEW v AS SELECT 1;";
     "/repo/supabase/migrations/20250104_oauth_tokens.sql" := file "CREATE TABLE oauth_tokens ();";
     "/repo/supabase/migrations/20250104_speakers_tables.sql" := file "CREATE TABLE speakers ();" ]}.

Definition abc : list string := ["a.sql"; "b.sql"; "c.sql"].

Definition start (fsys : FileSystem) : @World env := @mkWorld env fsys [].

End Scenario.

(** * Properties *)

Section Properties.
Context `{Environment}.

Implicit Types (w : World) (ms : list string) (t : list Event).

(** ** The trace projections distribute over concatenation *)

Lemma calls_app t1 t2 : calls (t1 ++ t2) = calls t1 ++ calls t2.
Proof. apply omap_app. Qed.

Lemma returns_app t1 t2 : returns (t1 ++ t2) = returns t1 ++ returns t2.
Proof. apply omap_app. Qed.

Lemma rpcs_app t1 t2 : rpcs (t1 ++ t2) = rpcs t1 ++ rpcs t2.
Proof. apply omap_app. Qed.

Lemma printed_app t1 t2 : printed (t1 ++ t2) = printed t1 ++ printed t2.
Proof. apply omap_app. Qed.

(** ** What one invocation of [run_migration] does, case by case *)

Lemma run_migration_missing filename w :
  fs w !! joinpath migrations_dir filename = None ->
  run_migration filename w =
    Ran (Ok true) w
      [ EvCall filename;
        EvExists (joinpath migrations_dir filename) false;
        EvPrint (skipped_line filename);
        EvReturn filename SkippedMissing ].
Proof.
  intros Hnone. destruct w as [fsys r]. simpl in Hnone.
  unfold run_migration, bind, path_exists, emit, print, return_, ret; simpl.
  rewrite Hnone. reflexivity.
Qed.

Lemma run_migration_unreadable filename w n e :
  fs w !! joinpath migrations_dir filename = Some n ->
  read_text (joinpath migrations_dir filename) n = Raise e ->
  run_migration filename w =
    Ran (Ok false) w
      ([ EvCall filename; EvExists (joinpath migrations_dir filename) true ]
       ++ read_events (joinpath migrations_dir filename) n
       ++ [ EvPrint (failed_line filename (str e));
            EvReturn filename (Failed (str e)) ]).
Proof.
  intros Hn Hread. destruct w as [fsys r]. simpl in Hn.
  unfold run_migration, try_except, with_open, bind, path_exists, py_open,
    open_on, f_read, emit, print, return_, ret; simpl.
  rewrite Hn; simpl.
  destruct n as [|[] text]; simpl in *.
  - injection Hread as <-. rewrite Hn. reflexivity.
  - rewrite Hn; simpl. subst text. reflexivity.
  - injection Hread as <-. rewrite Hn. reflexivity.
Qed.

Lemma run_migration_readable filename w n sql :
  fs w !! joinpath migrations_dir filename = Some n ->
  read_text (joinpath migrations_dir filename) n = Ok sql ->
  run_migration filename w =
    let call := rpc_execute (remote w) "exec_sql" [("query", sql)] in
    let o := match call.2 with Ok _ => Applied | Raise e => Failed (str e) end in
    Ran (Ok (success o)) (mkWorld (fs w) call.1)
      ([ EvCall filename; EvExists (joinpath migrations_dir filename) true ]
       ++ read_events (joinpath migrations_dir filename) n
       ++ [ EvRpc "exec_sql" [("query", sql)]
              (match call.2 with Ok _ => None | Raise e => Some e end);
            EvPrint (match call.2 with
                     | Ok _ => applied_line filename
                     | Raise e => failed_line filename (str e)
                     end);
            EvReturn filename o ]).
Proof.
  intros Hn Hread. destruct w as [fsys r]. simpl in Hn.
  destruct n as [|[] text]; simpl in Hread; try discriminate. subst text.
  unfold run_migration, try_except, with_open, bind, path_exists, py_open,
    open_on, f_read, rpc, emit, print, return_, ret; simpl.
  rewrite Hn; simpl. rewrite Hn; simpl.
  destruct (rpc_execute r "exec_sql" [("query", sql)]) as [r' [resp|e]]; reflexivity.
Qed.


(** [with open(path, 'r') as f: f.read()] ends as [read_text] says, leaves the
    world as it is and performs [read_events]. *)
Lemma with_open_read path w n :
  fs w !! path = Some n ->
  with_open path "r" f_read w = Ran (read_text path n) w (read_events path n).
Proof.
  intros Hn. destruct w as [fsys r]. simpl in Hn.
  unfold with_open, bind, py_open, open_on, f_read; simpl.
  rewrite Hn. destruct n as [|[] text]; reflexivity.
Qed.

(** Every invocation returns a [bool], keeps the filesystem, leaves the remote
    as its remote calls made it, and has one of the five shapes. *)
Lemma run_migration_invocation filename w :
  exists o t,
    run_migration filename w =
      Ran (Ok (success o)) (mkWorld (fs w) (remote_after (remote w) (rpcs t))) t
    /\ invocation filename o t.
Proof.
  destruct (fs w !! joinpath migrations_dir filename) as [n|] eqn:Hn.
  - destruct (read_text (joinpath migrations_dir filename) n) as [sql|e] eqn:Hread.
    + rewrite (run_migration_readable _ _ _ _ Hn Hread).
      assert (n = Regular true (Ok sql)) as ->.
      { destruct n as [|[] text]; simpl in Hread; congruence. }
      cbv zeta. unfold remote_after.
      destruct (rpc_execute (remote w) "exec_sql" [("query", sql)])
        as [r' [resp|e]] eqn:Hcall; simpl.
      * exists Applied; eexists; split; [|apply inv_applied].
        simpl. rewrite Hcall. reflexivity.
      * exists (Failed (str e)); eexists; split; [|apply inv_rpc_raised].
        simpl. rewrite Hcall. reflexivity.
    + rewrite (run_migration_unreadable _ _ _ _ Hn Hread).
      exists (Failed (str e)).
      destruct w as [fsys r].
      destruct n as [|[] text]; simpl in *.
      * eexists; split; [|apply inv_open_raised]. reflexivity.
      * eexists; split; [|apply inv_read_raised]. reflexivity.
      * eexists; split; [|apply inv_open_raised]. reflexivity.
  - rewrite (run_migration_missing _ _ Hn).
    exists SkippedMissing; eexists; split; [|apply inv_skipped].
    destruct w; reflexivity.
Qed.

(** ** The loop, one entry at a time *)

Lemma main_loop_nil w : main_loop [] w = Ran (Ok 0%Z) w closing_events.
Proof. reflexivity. Qed.

Lemma main_loop_continue migration rest w w1 t1 :
  run_migration migration w = Ran (Ok true) w1 t1 ->
  main_loop (migration :: rest) w =
    Ran (result (main_loop rest w1)) (world (main_loop rest w1))
        (t1 ++ events (main_loop rest w1)).
Proof.
  intros Hrun. cbn [main_loop]. unfold bind at 1. rewrite Hrun. cbn [negb].
  destruct (main_loop rest w1); reflexivity.
Qed.

Lemma main_loop_stop migration rest w w1 t1 :
  run_migration migration w = Ran (Ok false) w1 t1 ->
  main_loop (migration :: rest) w =
    Ran (Ok 1%Z) w1 (t1 ++ stopping_events migration).
Proof.
  intros Hrun. cbn [main_loop]. unfold bind at 1. rewrite Hrun. reflexivity.
Qed.

Lemma main_on_loop ms w :
  main_on ms w =
    Ran (result (main_loop ms w)) (world (main_loop ms w))
        (opening_events ms ++ events (main_loop ms w)).
Proof.
  unfold main_on, bind, print, emit. destruct (main_loop ms w); reflexivity.
Qed.

(** Every run of the loop returns an exit status, keeps the filesystem, leaves
    the remote as its remote calls made it, and has the shape [loop_trace]. *)
Lemma main_loop_trace ms w :
  exists code t,
    main_loop ms w =
      Ran (Ok code) (mkWorld (fs w) (remote_after (remote w) (rpcs t))) t
    /\ loop_trace ms code t.
Proof.
  revert w. induction ms as [|m rest IH]; intros w.
  - exists 0%Z, closing_events. split; [|constructor].
    rewrite main_loop_nil. destruct w; reflexivity.
  - destruct (run_migration_invocation m w) as (o & t & Hrun & Hinv).
    destruct (success o) eqn:Hok.
    + destruct (IH (mkWorld (fs w) (remote_after (remote w) (rpcs t))))
        as (code & t' & Hloop & Hshape).
      exists code, (t ++ t'). split; [|econstructor; eassumption].
      rewrite (main_loop_continue _ _ _ _ _ Hrun), Hloop. simpl.
      unfold remote_after. rewrite rpcs_app, foldl_app. reflexivity.
    + exists 1%Z, (t ++ stopping_events m). split; [|econstructor; eassumption].
      rewrite (main_loop_stop _ _ _ _ _ Hrun).
      rewrite rpcs_app. simpl. rewrite app_nil_r. reflexivity.
Qed.


(** [main] is its opening lines followed by the loop. *)
Lemma main_on_trace ms w :
  exists code t,
    main_on ms w =
      Ran (Ok code) (mkWorld (fs w) (remote_after (remote w) (rpcs t)))
          (opening_events ms ++ t)
    /\ loop_trace ms code t.
Proof.
  destruct (main_loop_trace ms w) as (code & t & Hloop & Hshape).
  exists code, t. split; [|assumption].
  rewrite main_on_loop, Hloop. reflexivity.
Qed.

(** ** Facts about one invocation's trace *)

Lemma success_succeeded o : success o = true <-> succeeded o.
Proof.
  unfold succeeded. destruct o; simpl; split; intros Hs; auto;
    try discriminate; destruct Hs; discriminate.
Qed.

Lemma not_success_failed o : success o = false -> exists reason, o = Failed reason.
Proof. destruct o; simpl; intros Hs; try discriminate. eauto. Qed.

Lemma invocation_calls f o t : invocation f o t -> calls t = [f].
Proof. destruct 1; reflexivity. Qed.

Lemma invocation_returns f o t : invocation f o t -> returns t = [(f, o)].
Proof. destruct 1; reflexivity. Qed.

Lemma invocation_rpcs_length f o t : invocation f o t -> length (rpcs t) <= 1.
Proof. destruct 1; simpl; lia. Qed.

(** ** Exit status *)

Lemma loop_trace_returns ms code t :
  loop_trace ms code t ->
  (code = 0%Z /\ (returns t).*1 = ms /\ Forall succeeded (returns t).*2)
  \/ (code = 1%Z /\ exists done f reason,
        returns t = done ++ [(f, Failed reason)]
        /\ Forall succeeded done.*2
        /\ (done.*1 ++ [f]) `prefix_of` ms).
Proof.
  induction 1 as [|m rest o t code t' Hinv Hok _ IH|m rest o t Hinv Hko].
  - left. repeat split. constructor.
  - rewrite returns_app, (invocation_returns _ _ _ Hinv).
    apply success_succeeded in Hok.
    destruct IH as [(-> & Hnames & Hall)|(-> & done & f & reason & Hret & Hall & Hpre)].
    + left. cbn [app]. rewrite !fmap_cons, Hnames. cbn [fst snd].
      repeat split. constructor; assumption.
    + right. split; [reflexivity|].
      exists ((m, o) :: done), f, reason. rewrite Hret. cbn [app].
      rewrite !fmap_cons. cbn [fst snd].
      repeat split; [constructor; assumption|].
      apply prefix_cons. assumption.
  - right. split; [reflexivity|].
    destruct (not_success_failed _ Hko) as [reason ->].
    exists [], m, reason. rewrite returns_app, (invocation_returns _ _ _ Hinv).
    simpl. repeat split; [constructor|].
    apply prefix_cons, prefix_nil.
Qed.

(** C1: over any migration list, the process exits with 0 or 1; it exits with 0
    exactly when [run_migration] returned for every entry of the list, in
    order, with Applied or SkippedMissing; otherwise it exits with 1, and the
    outcomes of the run are then successes for the entries before some entry
    followed by the Failed outcome of that entry, the last invocation made. *)
Theorem exit_code_zero_iff_all_succeeded ms w :
  let r := main_on ms w in
  (exit_code r = 0%Z \/ exit_code r = 1%Z)
  /\ (exit_code r = 0%Z <->
        (returns (events r)).*1 = ms /\ Forall succeeded (returns (events r)).*2)
  /\ (exit_code r <> 0%Z ->
        exit_code r = 1%Z
        /\ exists done f reason,
             returns (events r) = done ++ [(f, Failed reason)]
             /\ Forall succeeded done.*2
             /\ (done.*1 ++ [f]) `prefix_of` ms).
Proof.
  destruct (main_on_trace ms w) as (code & t & Hrun & Hshape).
  cbv zeta. rewrite Hrun. unfold exit_code. cbn [result events].
  rewrite returns_app. change (returns (opening_events ms)) with (@nil (string * Outcome)).
  cbn [app].
  destruct (loop_trace_returns _ _ _ Hshape)
    as [(-> & Hnames & Hall)|(-> & done & f & reason & Hret & Hall & Hpre)].
  - split; [left; reflexivity|]. split; [tauto|]. intros Hne. contradiction.
  - split; [right; reflexivity|]. split.
    + split; [discriminate|]. intros [_ Hbad]. exfalso.
      rewrite Hret, fmap_app, Forall_app in Hbad. destruct Hbad as [_ Hlast].
      inversion Hlast as [|? ? Hf _]; subst. destruct Hf; discriminate.
    + intros _. split; [reflexivity|]. eauto 6.
Qed.


(** ** Where an event sits in a concatenation *)

Lemma split_after {A} (a b t1 t2 : list A) (x : A) :
  a ++ b = t1 ++ x :: t2 -> x ∉ a ->
  exists k, t1 = a ++ k /\ b = k ++ x :: t2.
Proof.
  revert t1. induction a as [|y a IH]; intros t1 Heq Hnot.
  - exists t1. split; [reflexivity|assumption].
  - destruct t1 as [|y' t1]; simpl in Heq; injection Heq as -> Heq.
    + exfalso. apply Hnot. left.
    + destruct (IH t1 Heq) as (k & -> & ->).
      * intros Hin. apply Hnot. right. assumption.
      * exists k. split; reflexivity.
Qed.

Lemma split_before {A} (a b t1 t2 : list A) (x : A) :
  a ++ b = t1 ++ x :: t2 -> x ∉ b ->
  exists k, a = t1 ++ x :: k /\ t2 = k ++ b.
Proof.
  revert a. induction t1 as [|y t1 IH]; intros a Heq Hnot.
  - destruct a as [|y a]; simpl in Heq.
    + exfalso. apply Hnot. rewrite Heq. left.
    + injection Heq as -> Heq. exists a. split; [reflexivity|]. symmetry. assumption.
  - destruct a as [|y' a]; simpl in Heq.
    + exfalso. apply Hnot. rewrite Heq. right. apply elem_of_app. right. left.
    + injection Heq as -> Heq. destruct (IH a Heq Hnot) as (k & -> & ->).
      exists k. split; reflexivity.
Qed.

(** ** A remote call that raised *)

Lemma closing_events_no_rpc fn ps r : EvRpc fn ps r ∉ closing_events.
Proof.
  unfold closing_events. intros Hin.
  repeat (apply elem_of_cons in Hin as [Hin|Hin]; [discriminate|]).
  apply elem_of_nil in Hin. assumption.
Qed.

Lemma stopping_events_no_rpc m fn ps r : EvRpc fn ps r ∉ stopping_events m.
Proof.
  unfold stopping_events. intros Hin.
  repeat (apply elem_of_cons in Hin as [Hin|Hin]; [discriminate|]).
  apply elem_of_nil in Hin. assumption.
Qed.

Lemma invocation_success_no_failed_rpc f o t fn ps e :
  invocation f o t -> success o = true -> EvRpc fn ps (Some e) ∉ t.
Proof.
  intros Hinv Hok Hin. destruct Hinv; try discriminate Hok;
    repeat (apply elem_of_cons in Hin as [Hin|Hin]; [discriminate|]);
    apply elem_of_nil in Hin; assumption.
Qed.

(** In an invocation, the remote call that raised comes after the entry into
    [run_migration], is followed by no other call, and decides the outcome. *)
Lemma invocation_failed_rpc_split f o t t1 fn ps e k :
  invocation f o t ->
  t = t1 ++ EvRpc fn ps (Some e) :: k ->
  calls t1 = [f] /\ calls k = [] /\ rpcs k = [] /\ returns k = [(f, Failed (str e))].
Proof.
  intros Hinv Heq. destruct Hinv;
    repeat (destruct t1 as [|? t1]; [discriminate Heq || (injection Heq as <- <- <- <-)
                                    | injection Heq as <- Heq ]);
    try (destruct t1; discriminate Heq);
    repeat split.
Qed.


Lemma loop_trace_failed_rpc ms code t :
  loop_trace ms code t ->
  forall t1 fn ps e t2,
    t = t1 ++ EvRpc fn ps (Some e) :: t2 ->
    code = 1%Z /\ calls t2 = [] /\ rpcs t2 = []
    /\ exists before f later,
         ms = before ++ f :: later
         /\ calls t1 = before ++ [f]
         /\ returns t2 = [(f, Failed (str e))].
Proof.
  induction 1 as [|m rest o t code t' Hinv Hok _ IH|m rest o t Hinv Hko];
    intros t1 fn ps e t2 Heq.
  - exfalso. apply (closing_events_no_rpc fn ps (Some e)).
    rewrite Heq. apply elem_of_app. right. left.
  - destruct (split_after _ _ _ _ _ Heq) as (k & -> & Hk).
    { apply (invocation_success_no_failed_rpc _ _ _ _ _ _ Hinv Hok). }
    destruct (IH _ _ _ _ _ Hk) as (-> & Hc & Hr & before & f & later & -> & Hbefore & Hret).
    repeat split; try assumption.
    exists (m :: before), f, later. repeat split; [|assumption].
    rewrite calls_app, (invocation_calls _ _ _ Hinv), Hbefore. reflexivity.
  - destruct (split_before _ _ _ _ _ Heq) as (k & Ht & ->).
    { apply stopping_events_no_rpc. }
    destruct (invocation_failed_rpc_split _ _ _ _ _ _ _ _ Hinv Ht) as (Hc1 & Hck & Hrk & Hretk).
    rewrite calls_app, rpcs_app, Hck, Hrk. repeat split.
    exists [], m, rest. repeat split; [assumption|].
    rewrite returns_app, Hretk. reflexivity.
Qed.

(** C2: when a remote call of the run raises, the run stops there: the events
    after it hold no entry into [run_migration] and no remote call, the only
    return is the Failed return of the invocation that made the call, the
    process exits with 1, and the filenames [run_migration] was invoked with
    are the list up to that filename, so it is invoked for none after it. *)
Theorem failed_remote_call_stops_run ms w t1 fn params e t2 :
  events (main_on ms w) = t1 ++ EvRpc fn params (Some e) :: t2 ->
  calls t2 = [] /\ rpcs t2 = []
  /\ exit_code (main_on ms w) = 1%Z
  /\ exists before f later,
       ms = before ++ f :: later
       /\ calls t1 = before ++ [f]
       /\ calls (events (main_on ms w)) = before ++ [f]
       /\ returns t2 = [(f, Failed (str e))].
Proof.
  destruct (main_on_trace ms w) as (code & t & Hrun & Hshape).
  rewrite Hrun. unfold exit_code. cbn [result events]. intros Heq.
  destruct (split_after _ _ _ _ _ Heq) as (k & -> & Hk).
  { unfold opening_events. intros Hin.
    repeat (apply elem_of_cons in Hin as [Hin|Hin]; [discriminate|]).
    apply elem_of_nil in Hin. assumption. }
  destruct (loop_trace_failed_rpc _ _ _ Hshape _ _ _ _ _ Hk)
    as (-> & Hc & Hr & before & f & later & -> & Hbefore & Hret).
  repeat split; try assumption.
  exists before, f, later. repeat split; try assumption.
  rewrite Hk, !calls_app, Hbefore.
  change (calls (EvRpc fn params (Some e) :: t2)) with (calls t2).
  rewrite Hc, app_nil_r. reflexivity.
Qed.


(** ** Missing files *)

Lemma present_false fsys f :
  present fsys f = false <-> fsys !! joinpath migrations_dir f = None.
Proof.
  unfold present. destruct (fsys !! joinpath migrations_dir f); split; congruence.
Qed.

(** Leaving the missing files out of the list changes neither what the loop
    returns, nor the world it leaves, nor the remote calls it makes. *)
Lemma main_loop_filter_present ms w :
  let kept := List.filter (present (fs w)) ms in
  result (main_loop ms w) = result (main_loop kept w)
  /\ world (main_loop ms w) = world (main_loop kept w)
  /\ rpcs (events (main_loop ms w)) = rpcs (events (main_loop kept w)).
Proof.
  cbv zeta. revert w. induction ms as [|m rest IH]; intros w.
  - repeat split.
  - cbn [List.filter]. destruct (present (fs w) m) eqn:Hp.
    + destruct (run_migration_invocation m w) as (o & t & Hrun & _).
      destruct (success o).
      * rewrite !(main_loop_continue _ _ _ _ _ Hrun). cbn [result world events].
        rewrite !rpcs_app.
        destruct (IH (mkWorld (fs w) (remote_after (remote w) (rpcs t))))
          as (Hres & Hworld & Hrpcs).
        cbn [fs] in Hres, Hworld, Hrpcs. rewrite Hres, Hworld, Hrpcs. repeat split.
      * rewrite !(main_loop_stop _ _ _ _ _ Hrun). repeat split.
    + apply present_false in Hp.
      rewrite (main_loop_continue _ _ _ _ _ (run_migration_missing _ _ Hp)).
      cbn [result world events]. rewrite rpcs_app. apply IH.
Qed.

(** C3: a filename whose path names nothing makes [run_migration] print the
    skipping line and return True with the outcome SkippedMissing, touching
    neither the remote nor the filesystem; the loop goes on with the next
    filename in the same world; and the whole run exits with the status, leaves
    the world and makes the remote calls of the run over the list without its
    missing files, so it exits with 0 when the others all succeed. *)
Theorem missing_file_skipped_run_continues ms w :
  (forall filename,
     fs w !! joinpath migrations_dir filename = None ->
     run_migration filename w =
       Ran (Ok true) w
         [ EvCall filename;
           EvExists (joinpath migrations_dir filename) false;
           EvPrint (skipped_line filename);
           EvReturn filename SkippedMissing ]
     /\ forall rest,
          main_loop (filename :: rest) w =
            Ran (result (main_loop rest w)) (world (main_loop rest w))
                (events (run_migration filename w) ++ events (main_loop rest w)))
  /\ exit_code (main_on ms w) = exit_code (main_on (List.filter (present (fs w)) ms) w)
  /\ world (main_on ms w) = world (main_on (List.filter (present (fs w)) ms) w)
  /\ rpcs (events (main_on ms w))
     = rpcs (events (main_on (List.filter (present (fs w)) ms) w))
  /\ (exit_code (main_on (List.filter (present (fs w)) ms) w) = 0%Z ->
      exit_code (main_on ms w) = 0%Z).
Proof.
  destruct (main_loop_filter_present ms w) as (Hres & Hworld & Hrpcs).
  assert (exit_code (main_on ms w)
          = exit_code (main_on (List.filter (present (fs w)) ms) w)) as Hexit.
  { unfold exit_code. rewrite !main_on_loop. cbn [result]. rewrite Hres. reflexivity. }
  split; [|split; [exact Hexit|split; [|split]]].
  - intros filename Hnone. split.
    + apply run_migration_missing. assumption.
    + intros rest.
      rewrite (main_loop_continue _ _ _ _ _ (run_migration_missing _ _ Hnone)).
      rewrite (run_migration_missing _ _ Hnone). reflexivity.
  - rewrite !main_on_loop. cbn [world]. assumption.
  - rewrite !main_on_loop. cbn [events]. rewrite !rpcs_app.
    rewrite Hrpcs. reflexivity.
  - intros Hzero. rewrite Hexit. assumption.
Qed.


(** ** Exceptions *)

(** C4: when the file is read and the remote call raises [e], [run_migration]
    returns False with the outcome Failed (str e), after printing the error
    line that carries [str e]: the exception is caught inside
    [run_migration] and does not leave it; the remote is left as the call
    left it and the call is the only one made. *)
Theorem remote_exception_becomes_failed filename w n sql remote' e :
  fs w !! joinpath migrations_dir filename = Some n ->
  read_text (joinpath migrations_dir filename) n = Ok sql ->
  rpc_execute (remote w) "exec_sql" [("query", sql)] = (remote', Raise e) ->
  run_migration filename w =
    Ran (Ok false) (mkWorld (fs w) remote')
      [ EvCall filename;
        EvExists (joinpath migrations_dir filename) true;
        EvOpen (joinpath migrations_dir filename) "r";
        EvRead (joinpath migrations_dir filename);
        EvRpc "exec_sql" [("query", sql)] (Some e);
        EvPrint (failed_line filename (str e));
        EvReturn filename (Failed (str e)) ].
Proof.
  intros Hn Hread Hcall.
  rewrite (run_migration_readable _ _ _ _ Hn Hread). cbv zeta. rewrite Hcall.
  assert (n = Regular true (Ok sql)) as ->.
  { destruct n as [|[] text]; simpl in Hread; congruence. }
  reflexivity.
Qed.


(** ** Order of the invocations *)

Lemma loop_trace_calls_returns ms code t :
  loop_trace ms code t -> (returns t).*1 = calls t.
Proof.
  induction 1 as [|m rest o t code t' Hinv Hok _ IH|m rest o t Hinv Hko].
  - reflexivity.
  - rewrite returns_app, calls_app, fmap_app, IH.
    rewrite (invocation_returns _ _ _ Hinv), (invocation_calls _ _ _ Hinv). reflexivity.
  - rewrite returns_app, calls_app, fmap_app.
    rewrite (invocation_returns _ _ _ Hinv), (invocation_calls _ _ _ Hinv). reflexivity.
Qed.

Lemma loop_trace_calls_prefix ms code t :
  loop_trace ms code t ->
  calls t `prefix_of` ms /\ (Forall succeeded (returns t).*2 -> calls t = ms).
Proof.
  intros Hshape. rewrite <- (loop_trace_calls_returns _ _ _ Hshape).
  destruct (loop_trace_returns _ _ _ Hshape)
    as [(_ & Hnames & _)|(_ & done & f & reason & Hret & _ & Hpre)].
  - rewrite Hnames. split; [reflexivity|]. intros _. reflexivity.
  - rewrite Hret, fmap_app. split; [assumption|].
    intros Hbad. exfalso. rewrite fmap_app, Forall_app in Hbad.
    destruct Hbad as [_ Hlast]. inversion Hlast as [|? ? Hf _]; subst.
    destruct Hf; discriminate.
Qed.

(** C5: the filenames [run_migration] is invoked with are an initial part of
    the list, in list order, one invocation and one return per entry reached;
    after a file that is read and that the remote accepts, the loop goes on
    with the rest of the list in the world the call left; and when no
    invocation fails, the invocations are the whole list, each entry once. *)
Theorem loop_follows_list_order ms w :
  let t := events (main_on ms w) in
  calls t `prefix_of` ms
  /\ (returns t).*1 = calls t
  /\ (Forall succeeded (returns t).*2 -> calls t = ms)
  /\ (forall migration rest n sql remote' response,
        fs w !! joinpath migrations_dir migration = Some n ->
        read_text (joinpath migrations_dir migration) n = Ok sql ->
        rpc_execute (remote w) "exec_sql" [("query", sql)] = (remote', Ok response) ->
        returns (events (run_migration migration w)) = [(migration, Applied)]
        /\ main_loop (migration :: rest) w =
             let next := main_loop rest (mkWorld (fs w) remote') in
             Ran (result next) (world next)
                 (events (run_migration migration w) ++ events next)).
Proof.
  cbv zeta. destruct (main_on_trace ms w) as (code & t & Hrun & Hshape).
  rewrite Hrun. cbn [events]. rewrite returns_app, calls_app.
  change (returns (opening_events ms)) with (@nil (string * Outcome)).
  change (calls (opening_events ms)) with (@nil string). cbn [app].
  destruct (loop_trace_calls_prefix _ _ _ Hshape) as (Hpre & Hall).
  split; [assumption|]. split; [apply (loop_trace_calls_returns _ _ _ Hshape)|].
  split; [assumption|].
  intros m rest n sql remote' response Hn Hread Hcall.
  pose proof (run_migration_readable _ _ _ _ Hn Hread) as Hm.
  cbv zeta in Hm. rewrite Hcall in Hm. cbn [fst snd success] in Hm.
  rewrite (main_loop_continue _ _ _ _ _ Hm), Hm. cbn [events].
  split; [|reflexivity].
  rewrite !returns_app.
  assert (n = Regular true (Ok sql)) as ->.
  { destruct n as [|[] text]; simpl in Hread; congruence. }
  reflexivity.
Qed.


(** ** What is submitted *)

(** C6: for a file that is there and is read as the text [sql], whatever its
    name and whatever the text, [run_migration] opens it for reading, reads
    it, and submits [sql] as read to the remote: the remote afterwards is
    what [exec_sql] with the single parameter [query] holding [sql] makes of
    the remote before, the value returned says whether that call returned or
    raised, and it is the one remote call made.  Nothing else happens before
    the call. *)
Theorem whole_file_text_submitted filename w sql :
  fs w !! joinpath migrations_dir filename = Some (Regular true (Ok sql)) ->
  world (run_migration filename w)
    = mkWorld (fs w) (rpc_execute (remote w) "exec_sql" [("query", sql)]).1
  /\ result (run_migration filename w)
     = Ok (match (rpc_execute (remote w) "exec_sql" [("query", sql)]).2 with
           | Ok _ => true
           | Raise _ => false
           end)
  /\ rpcs (events (run_migration filename w)) = [("exec_sql", [("query", sql)])]
  /\ exists after,
       events (run_migration filename w) =
         [ EvCall filename;
           EvExists (joinpath migrations_dir filename) true;
           EvOpen (joinpath migrations_dir filename) "r";
           EvRead (joinpath migrations_dir filename);
           EvRpc "exec_sql" [("query", sql)]
             (match (rpc_execute (remote w) "exec_sql" [("query", sql)]).2 with
              | Ok _ => None
              | Raise e => Some e
              end) ] ++ after
       /\ rpcs after = [].
Proof.
  intros Hn.
  rewrite (run_migration_readable _ _ _ sql Hn eq_refl). cbv zeta.
  cbn [world result events].
  split; [reflexivity|]. split.
  { destruct (rpc_execute (remote w) "exec_sql" [("query", sql)]).2; reflexivity. }
  split; [reflexivity|]. eexists. split; reflexivity.
Qed.


(** ** The empty list *)

(** C7: over the empty list [main] prints its opening lines, among them the
    total of 0 migrations, and its closing lines, never enters
    [run_migration], makes no remote call, leaves the world as it was and
    returns 0, the status the process exits with. *)
Theorem empty_list_exits_zero w :
  main_on [] w = Ran (Ok 0%Z) w (opening_events [] ++ closing_events)
  /\ exit_code (main_on [] w) = 0%Z
  /\ calls (events (main_on [] w)) = []
  /\ rpcs (events (main_on [] w)) = []
  /\ printed (events (main_on [] w)) !! 2%nat = Some ("   Total migrations: 0" ++ nl)%string.
Proof.
  assert (main_on [] w = Ran (Ok 0%Z) w (opening_events [] ++ closing_events)) as Hrun.
  { rewrite main_on_loop, main_loop_nil. reflexivity. }
  rewrite Hrun. repeat split.
Qed.


(** ** No retry *)

Lemma loop_trace_rpc_owners ms code t :
  loop_trace ms code t ->
  forall cur, rpc_owners cur t `sublist_of` (Some <$> ms).
Proof.
  induction 1 as [|m rest o t code t' Hinv Hok _ IH|m rest o t Hinv Hko]; intros cur.
  - apply sublist_nil_l.
  - rewrite fmap_cons.
    destruct Hinv; try discriminate Hok; cbn [app rpc_owners].
    + apply sublist_cons, IH.
    + apply sublist_skip, IH.
  - rewrite fmap_cons.
    destruct Hinv; try discriminate Hko; cbn [app rpc_owners stopping_events];
      try apply sublist_nil_l.
    apply sublist_skip, sublist_nil_l.
Qed.

Lemma loop_trace_rpcs_le_calls ms code t :
  loop_trace ms code t -> length (rpcs t) <= length (calls t).
Proof.
  induction 1 as [|m rest o t code t' Hinv Hok _ IH|m rest o t Hinv Hko].
  - simpl. lia.
  - rewrite rpcs_app, calls_app, !length_app, (invocation_calls _ _ _ Hinv).
    pose proof (invocation_rpcs_length _ _ _ Hinv). simpl. lia.
  - rewrite rpcs_app, calls_app, !length_app, (invocation_calls _ _ _ Hinv).
    pose proof (invocation_rpcs_length _ _ _ Hinv). simpl. lia.
Qed.

Lemma migrations_NoDup : NoDup migrations.
Proof.
  unfold migrations.
  repeat (apply NoDup_cons; split;
          [intros Hin;
           repeat (apply elem_of_cons in Hin as [Hin|Hin]; [discriminate|]);
           apply elem_of_nil in Hin; assumption|]).
  apply NoDup_nil_2.
Qed.

(** C8: one invocation of [run_migration] makes at most one remote call; over
    a run, the invocations that made a remote call are, in order, entries of
    the list, each entry at most once, so there are no more remote calls than
    invocations; once a remote call has raised, no remote call follows; and
    over the script's own list no filename is submitted twice. *)
Theorem no_retry ms w :
  let t := events (main_on ms w) in
  (forall filename w0, length (rpcs (events (run_migration filename w0))) <= 1)
  /\ rpc_owners None t `sublist_of` (Some <$> ms)
  /\ length (rpcs t) <= length (calls t)
  /\ (forall t1 fn params e t2,
        t = t1 ++ EvRpc fn params (Some e) :: t2 -> rpcs t2 = [])
  /\ NoDup (rpc_owners None (events (main w))).
Proof.
  cbv zeta. split; [|split; [|split; [|split]]].
  - intros filename w0.
    destruct (run_migration_invocation filename w0) as (o & t & Hrun & Hinv).
    rewrite Hrun. apply (invocation_rpcs_length _ _ _ Hinv).
  - destruct (main_on_trace ms w) as (code & t & Hrun & Hshape).
    rewrite Hrun. cbn [events opening_events app rpc_owners].
    apply (loop_trace_rpc_owners _ _ _ Hshape).
  - destruct (main_on_trace ms w) as (code & t & Hrun & Hshape).
    rewrite Hrun. cbn [events]. rewrite rpcs_app, calls_app.
    apply (loop_trace_rpcs_le_calls _ _ _ Hshape).
  - destruct (main_on_trace ms w) as (code & t & Hrun & Hshape).
    rewrite Hrun. cbn [events]. intros t1 fn params e t2 Heq.
    destruct (split_after _ _ _ _ _ Heq) as (k & -> & Hk).
    { unfold opening_events. intros Hin.
      repeat (apply elem_of_cons in Hin as [Hin|Hin]; [discriminate|]).
      apply elem_of_nil in Hin. assumption. }
    apply (loop_trace_failed_rpc _ _ _ Hshape _ _ _ _ _ Hk).
  - unfold main. destruct (main_on_trace migrations w) as (code & t & Hrun & Hshape).
    rewrite Hrun. cbn [events opening_events app rpc_owners].
    eapply sublist_NoDup; [|apply (loop_trace_rpc_owners _ _ _ Hshape)].
    apply (NoDup_fmap_2 Some), migrations_NoDup.
Qed.


(** ** Local state *)

Lemma invocation_local_read_only f o t :
  invocation f o t -> Forall (fun ev => local_read_only ev = true) t.
Proof. destruct 1; repeat constructor. Qed.

Lemma loop_trace_local_read_only ms code t :
  loop_trace ms code t -> Forall (fun ev => local_read_only ev = true) t.
Proof.
  induction 1 as [|m rest o t code t' Hinv Hok _ IH|m rest o t Hinv Hko].
  - repeat constructor.
  - apply Forall_app. split; [apply (invocation_local_read_only _ _ _ Hinv)|assumption].
  - apply Forall_app. split; [apply (invocation_local_read_only _ _ _ Hinv)|].
    repeat constructor.
Qed.

(** C9: a run leaves the filesystem exactly as it found it; every event of the
    run is an existence check, an open for reading, a read, a print, a remote
    call or a call or return marker, none of which writes locally; and the
    only state that changes is the remote, which ends as the run's remote
    calls, made in order, leave it (unchanged when there is none). *)
Theorem local_state_only_read ms w :
  let r := main_on ms w in
  fs (world r) = fs w
  /\ Forall (fun ev => local_read_only ev = true) (events r)
  /\ remote (world r) = remote_after (remote w) (rpcs (events r))
  /\ (rpcs (events r) = [] -> world r = w).
Proof.
  cbv zeta. destruct (main_on_trace ms w) as (code & t & Hrun & Hshape).
  rewrite Hrun. cbn [world events fs remote]. rewrite rpcs_app.
  change (rpcs (opening_events ms)) with (@nil (string * list (string * string))).
  cbn [app]. repeat split.
  - apply Forall_app. split; [repeat constructor|].
    apply (loop_trace_local_read_only _ _ _ Hshape).
  - intros ->. destruct w; reflexivity.
Qed.


(** Opening for writing is what would change the filesystem: on a path that
    names nothing it creates an empty file. *)
Lemma open_for_writing_creates path w :
  fs w !! path = None ->
  fs (world (py_open path "w" w)) !! path = Some (Regular true (Ok ""%string)).
Proof.
  intros Hnone. unfold py_open, open_on. cbn [String.eqb Ascii.eqb Bool.eqb].
  rewrite Hnone. cbn [world fs]. apply lookup_insert_eq.
Qed.

(** ** Files that are there but cannot be read *)

Lemma read_events_no_rpc path n : rpcs (read_events path n) = [].
Proof. destruct n as [|[] text]; reflexivity. Qed.

Lemma read_events_no_return path n : returns (read_events path n) = [].
Proof. destruct n as [|[] text]; reflexivity. Qed.

(** C10: when the path names something but opening or reading it raises [e]
    (a directory, a file the process may not read, text that does not
    decode), [run_migration] catches [e]: it prints the error line with
    [str e] and returns False with the outcome Failed (str e), not
    SkippedMissing, without any remote call and without changing the world;
    the loop then stops with the two stopping lines and status 1. *)
Theorem unreadable_file_becomes_failed filename rest w n e :
  fs w !! joinpath migrations_dir filename = Some n ->
  read_text (joinpath migrations_dir filename) n = Raise e ->
  with_open (joinpath migrations_dir filename) "r" f_read w
    = Ran (Raise e) w (read_events (joinpath migrations_dir filename) n)
  /\ run_migration filename w =
       Ran (Ok false) w
         ([ EvCall filename; EvExists (joinpath migrations_dir filename) true ]
          ++ read_events (joinpath migrations_dir filename) n
          ++ [ EvPrint (failed_line filename (str e));
               EvReturn filename (Failed (str e)) ])
  /\ returns (events (run_migration filename w)) = [(filename, Failed (str e))]
  /\ rpcs (events (run_migration filename w)) = []
  /\ main_loop (filename :: rest) w =
       Ran (Ok 1%Z) w (events (run_migration filename w) ++ stopping_events filename)
  /\ exit_code (main_loop (filename :: rest) w) = 1%Z.
Proof.
  intros Hn Hread.
  pose proof (run_migration_unreadable _ _ _ _ Hn Hread) as Hrun.
  split; [rewrite (with_open_read _ _ _ Hn), Hread; reflexivity|].
  split; [exact Hrun|].
  rewrite (main_loop_stop _ _ _ _ _ Hrun), Hrun. cbn [events].
  repeat split.
  - rewrite !returns_app, read_events_no_return. reflexivity.
  - rewrite !rpcs_app, read_events_no_rpc. reflexivity.
Qed.

End Properties.

(** * Further properties of the loop and its output *)

Section Further.
Context `{Environment}.

Implicit Types (w : World) (ms : list string) (t : list Event).


(** ** Lists put end to end *)

(** X1: when the loop over a first list runs to its end, the loop over that
    list followed by a second one does what the first did up to its closing
    lines and then what the loop over the second does in the world the first
    left. *)
Theorem main_loop_app_completed ms1 ms2 w :
  exit_code (main_loop ms1 w) = 0%Z ->
  exists body,
    events (main_loop ms1 w) = body ++ closing_events
    /\ main_loop (ms1 ++ ms2) w =
         Ran (result (main_loop ms2 (world (main_loop ms1 w))))
             (world (main_loop ms2 (world (main_loop ms1 w))))
             (body ++ events (main_loop ms2 (world (main_loop ms1 w)))).
Proof.
  revert w. induction ms1 as [|m rest IH]; intros w Hzero.
  - exists []. rewrite main_loop_nil. cbn [app world events]. split; [reflexivity|].
    destruct (main_loop ms2 w); reflexivity.
  - destruct (run_migration_invocation m w) as (o & t & Hrun & _).
    destruct (success o).
    + rewrite (main_loop_continue _ _ _ _ _ Hrun) in Hzero |- *.
      cbn [app]. rewrite (main_loop_continue _ _ _ _ _ Hrun).
      cbn [world events]. unfold exit_code in Hzero. cbn [result] in Hzero.
      destruct (IH _ Hzero) as (body & Hbody & Happ).
      exists (t ++ body). rewrite Hbody, Happ. cbn [result world events].
      rewrite !app_assoc. split; reflexivity.
    + rewrite (main_loop_stop _ _ _ _ _ Hrun) in Hzero. discriminate Hzero.
Qed.

(** X2: when the loop over a list stops at a failure, whatever is appended to
    the list changes nothing: same returned status, same world, same events. *)
Theorem main_loop_app_stopped ms1 ms2 w :
  exit_code (main_loop ms1 w) = 1%Z ->
  main_loop (ms1 ++ ms2) w = main_loop ms1 w.
Proof.
  revert w. induction ms1 as [|m rest IH]; intros w Hone.
  - rewrite main_loop_nil in Hone. discriminate Hone.
  - destruct (run_migration_invocation m w) as (o & t & Hrun & _).
    destruct (success o).
    + rewrite (main_loop_continue _ _ _ _ _ Hrun) in Hone |- *.
      cbn [app]. rewrite (main_loop_continue _ _ _ _ _ Hrun).
      unfold exit_code in Hone. cbn [result] in Hone.
      rewrite (IH _ Hone). reflexivity.
    + cbn [app]. rewrite !(main_loop_stop _ _ _ _ _ Hrun). reflexivity.
Qed.


(** ** What reaches the remote *)

Lemma run_migration_rpcs filename w :
  rpcs (events (run_migration filename w)) = option_list (submission (fs w) filename).
Proof.
  unfold submission.
  destruct (fs w !! joinpath migrations_dir filename) as [n|] eqn:Hn.
  - destruct (read_text (joinpath migrations_dir filename) n) as [sql|e] eqn:Hread.
    + rewrite (run_migration_readable _ _ _ _ Hn Hread). cbv zeta. cbn [events].
      assert (n = Regular true (Ok sql)) as ->.
      { destruct n as [|[] text]; simpl in Hread; congruence. }
      reflexivity.
    + rewrite (run_migration_unreadable _ _ _ _ Hn Hread). cbn [events].
      rewrite !rpcs_app, read_events_no_rpc.
      destruct n as [|[] text]; try reflexivity.
      simpl in Hread. rewrite Hread. reflexivity.
  - rewrite (run_migration_missing _ _ Hn). reflexivity.
Qed.

Lemma main_loop_rpcs ms w :
  rpcs (events (main_loop ms w))
  = omap (submission (fs w)) (calls (events (main_loop ms w))).
Proof.
  revert w. induction ms as [|m rest IH]; intros w.
  - reflexivity.
  - pose proof (run_migration_rpcs m w) as Hrpcs.
    destruct (run_migration_invocation m w) as (o & t & Hrun & Hinv).
    rewrite Hrun in Hrpcs. cbn [events] in Hrpcs.
    destruct (success o).
    + rewrite (main_loop_continue _ _ _ _ _ Hrun). cbn [events].
      rewrite rpcs_app, calls_app, omap_app, IH, Hrpcs, (invocation_calls _ _ _ Hinv).
      reflexivity.
    + rewrite (main_loop_stop _ _ _ _ _ Hrun). cbn [events].
      rewrite rpcs_app, calls_app, omap_app, Hrpcs, (invocation_calls _ _ _ Hinv).
      cbn [omap list_omap]. destruct (submission (fs w) m); reflexivity.
Qed.

(** X3: the remote calls of a run are, in order, the [exec_sql] calls carrying
    the text of each file [run_migration] was invoked with that is there,
    opens and decodes, and nothing else; a run that exits with 0 has
    submitted every such file of the list; and the remote ends as those
    calls, made in that order, leave it. *)
Theorem remote_calls_are_file_texts ms w :
  let r := main_on ms w in
  rpcs (events r) = omap (submission (fs w)) (calls (events r))
  /\ (exit_code r = 0%Z -> rpcs (events r) = omap (submission (fs w)) ms)
  /\ remote (world r)
     = remote_after (remote w) (omap (submission (fs w)) (calls (events r))).
Proof.
  cbv zeta.
  assert (rpcs (events (main_on ms w))
          = omap (submission (fs w)) (calls (events (main_on ms w)))) as Hrpcs.
  { rewrite main_on_loop. cbn [events]. rewrite rpcs_app, calls_app.
    apply main_loop_rpcs. }
  split; [exact Hrpcs|]. split; cycle 1.
  { rewrite <- Hrpcs.
    destruct (main_on_trace ms w) as (code & t & Hrun & _).
    rewrite Hrun. cbn [world events remote]. rewrite rpcs_app. reflexivity. }
  intros Hzero. rewrite Hrpcs. f_equal.
  destruct (main_on_trace ms w) as (code & t & Hrun & Hshape).
  rewrite Hrun in Hzero |- *. unfold exit_code in Hzero. cbn [result] in Hzero.
  cbn [events]. rewrite calls_app. subst code.
  rewrite <- (loop_trace_calls_returns _ _ _ Hshape).
  destruct (loop_trace_returns _ _ _ Hshape) as [(_ & Hnames & _)|(Hbad & _)];
    [exact Hnames|discriminate Hbad].
Qed.

(** ** What is touched on the filesystem *)

Lemma accessed_app t1 t2 : omap accessed (t1 ++ t2) = omap accessed t1 ++ omap accessed t2.
Proof. apply omap_app. Qed.

Lemma invocation_accessed f o t :
  invocation f o t -> Forall (eq (joinpath migrations_dir f)) (omap accessed t).
Proof. destruct 1; repeat constructor. Qed.

Lemma loop_trace_accessed ms code t :
  loop_trace ms code t ->
  Forall (fun path => exists f, f ∈ ms /\ path = joinpath migrations_dir f)
         (omap accessed t).
Proof.
  induction 1 as [|m rest o t code t' Hinv Hok _ IH|m rest o t Hinv Hko].
  - constructor.
  - rewrite accessed_app. apply Forall_app. split.
    + eapply Forall_impl; [apply (invocation_accessed _ _ _ Hinv)|].
      intros path <-. exists m. split; [left|reflexivity].
    + eapply Forall_impl; [exact IH|].
      intros path (f & Hin & ->). exists f. split; [right; assumption|reflexivity].
  - rewrite accessed_app. apply Forall_app. split; [|constructor].
    eapply Forall_impl; [apply (invocation_accessed _ _ _ Hinv)|].
    intros path <-. exists m. split; [left|reflexivity].
Qed.

(** X4: every existence check, open and read of a run is made on the path of a
    filename of the list, joined to the migrations directory; the run looks at
    no other path. *)
Theorem only_listed_paths_accessed ms w :
  Forall (fun path => exists f, f ∈ ms /\ path = joinpath migrations_dir f)
         (omap accessed (events (main_on ms w))).
Proof.
  destruct (main_on_trace ms w) as (code & t & Hrun & Hshape).
  rewrite Hrun. cbn [events]. rewrite accessed_app.
  apply Forall_app. split; [constructor|].
  apply (loop_trace_accessed _ _ _ Hshape).
Qed.


(** ** What is printed *)

Lemma invocation_printed f o t : invocation f o t -> printed t = [outcome_line f o].
Proof. destruct 1; reflexivity. Qed.

Lemma loop_trace_printed ms code t :
  loop_trace ms code t ->
  (code = 0%Z
   /\ printed t = progress_lines (returns t) ++ printed closing_events)
  \/ (code = 1%Z
      /\ exists f reason,
           last (returns t) = Some (f, Failed reason)
           /\ printed t = progress_lines (returns t) ++ printed (stopping_events f)).
Proof.
  induction 1 as [|m rest o t code t' Hinv Hok _ IH|m rest o t Hinv Hko].
  - left. split; reflexivity.
  - rewrite printed_app, returns_app.
    rewrite (invocation_printed _ _ _ Hinv), (invocation_returns _ _ _ Hinv).
    destruct IH as [(-> & Hp)|(-> & f & reason & Hlast & Hp)].
    + left. split; [reflexivity|]. rewrite Hp. reflexivity.
    + right. split; [reflexivity|]. exists f, reason. split.
      * cbn [app]. rewrite last_cons, Hlast. reflexivity.
      * rewrite Hp. reflexivity.
  - right. split; [reflexivity|].
    destruct (not_success_failed _ Hko) as [reason ->].
    exists m, reason. rewrite printed_app, returns_app.
    rewrite (invocation_printed _ _ _ Hinv), (invocation_returns _ _ _ Hinv).
    split; reflexivity.
Qed.

(** X5: the console shows the three opening lines, then one progress line per
    invocation of [run_migration] in order (the check mark, the skipping
    notice or the error with its reason), and then either the five closing
    lines, when the process exits with 0, or the two stopping lines naming
    the migration whose invocation returned last and failed, when it exits
    with 1. *)
Theorem console_output ms w :
  let r := main_on ms w in
  (exit_code r = 0%Z
   /\ printed (events r)
      = printed (opening_events ms) ++ progress_lines (returns (events r))
        ++ printed closing_events)
  \/ (exit_code r = 1%Z
      /\ exists f reason,
           last (returns (events r)) = Some (f, Failed reason)
           /\ printed (events r)
              = printed (opening_events ms) ++ progress_lines (returns (events r))
                ++ printed (stopping_events f)).
Proof.
  cbv zeta. destruct (main_on_trace ms w) as (code & t & Hrun & Hshape).
  rewrite Hrun. unfold exit_code. cbn [result events].
  rewrite printed_app, returns_app.
  change (returns (opening_events ms)) with (@nil (string * Outcome)). cbn [app].
  destruct (loop_trace_printed _ _ _ Hshape) as [(-> & Hp)|(-> & f & reason & Hlast & Hp)].
  - left. split; [reflexivity|]. rewrite Hp. reflexivity.
  - right. split; [reflexivity|]. exists f, reason. split; [assumption|].
    rewrite Hp. reflexivity.
Qed.

(** ** Running the script again *)

Lemma main_on_fs ms w : fs (world (main_on ms w)) = fs w.
Proof.
  destruct (main_on_trace ms w) as (code & t & Hrun & _). rewrite Hrun. reflexivity.
Qed.

Lemma main_on_rpcs ms w :
  rpcs (events (main_on ms w)) = omap (submission (fs w)) (calls (events (main_on ms w))).
Proof.
  rewrite main_on_loop. cbn [events]. rewrite rpcs_app, calls_app. apply main_loop_rpcs.
Qed.

Lemma main_on_calls ms w :
  calls (events (main_on ms w)) `prefix_of` ms
  /\ (exit_code (main_on ms w) = 0%Z -> calls (events (main_on ms w)) = ms).
Proof.
  destruct (main_on_trace ms w) as (code & t & Hrun & Hshape).
  rewrite Hrun. unfold exit_code. cbn [result events]. rewrite calls_app.
  change (calls (opening_events ms)) with (@nil string). cbn [app].
  split; [apply (loop_trace_calls_prefix _ _ _ Hshape)|].
  intros ->. rewrite <- (loop_trace_calls_returns _ _ _ Hshape).
  destruct (loop_trace_returns _ _ _ Hshape) as [(_ & Hnames & _)|(Hbad & _)];
    [exact Hnames|discriminate Hbad].
Qed.

(** X6: the script keeps no record of what it has applied.  After a run that
    exited with 0, a second run in the world the first left starts again at
    the first file: its remote calls are an initial part of the first run's,
    and all of them again when it exits with 0 too. *)
Theorem rerun_submits_again ms w :
  exit_code (main_on ms w) = 0%Z ->
  let again := main_on ms (world (main_on ms w)) in
  rpcs (events again) `prefix_of` rpcs (events (main_on ms w))
  /\ (exit_code again = 0%Z -> rpcs (events again) = rpcs (events (main_on ms w))).
Proof.
  intros Hzero. cbv zeta.
  destruct (main_on_calls ms w) as (_ & Hall). specialize (Hall Hzero).
  destruct (main_on_calls ms (world (main_on ms w))) as (Hpre & Hall2).
  rewrite (main_on_rpcs ms w), (main_on_rpcs ms (world (main_on ms w))).
  rewrite main_on_fs, Hall. split.
  - destruct Hpre as [k Hk]. exists (omap (submission (fs w)) k).
    rewrite <- omap_app, <- Hk. reflexivity.
  - intros Hzero2. rewrite (Hall2 Hzero2). reflexivity.
Qed.


(** ** From the existence check to the remote call *)

Lemma invocation_pipeline f o t :
  invocation f o t ->
  opened_paths t = found_paths t
  /\ read_paths t `sublist_of` opened_paths t
  /\ length (rpcs t) <= length (read_paths t).
Proof.
  destruct 1; cbn; repeat split; try lia; try reflexivity;
    try apply sublist_nil_l.
Qed.

Lemma loop_trace_pipeline ms code t :
  loop_trace ms code t ->
  opened_paths t = found_paths t
  /\ read_paths t `sublist_of` opened_paths t
  /\ length (rpcs t) <= length (read_paths t).
Proof.
  unfold opened_paths, found_paths, read_paths.
  induction 1 as [|m rest o t code t' Hinv Hok _ IH|m rest o t Hinv Hko].
  - cbn. repeat split; [reflexivity|lia].
  - destruct (invocation_pipeline _ _ _ Hinv) as (Ho & Hr & Hl).
    destruct IH as (Ho' & Hr' & Hl').
    unfold opened_paths, found_paths, read_paths in Ho, Hr, Hl.
    rewrite rpcs_app, !omap_app, !length_app, Ho, Ho'. repeat split; [|lia].
    rewrite <- Ho, <- Ho'. apply sublist_app; assumption.
  - destruct (invocation_pipeline _ _ _ Hinv) as (Ho & Hr & Hl).
    unfold opened_paths, found_paths, read_paths in Ho, Hr, Hl.
    rewrite rpcs_app, !omap_app, !length_app, Ho. cbn. rewrite !app_nil_r.
    repeat split; [|lia]. rewrite <- Ho. assumption.
Qed.

(** X7: over a run, the paths opened are exactly the paths an existence check
    found, in the same order, so nothing found absent is ever opened; the
    paths read are among the paths opened; and there are no more remote calls
    than reads, a remote call being made only for a file that was read. *)
Theorem open_only_found_call_only_read ms w :
  let t := events (main_on ms w) in
  opened_paths t = found_paths t
  /\ read_paths t `sublist_of` opened_paths t
  /\ length (rpcs t) <= length (read_paths t).
Proof.
  cbv zeta. destruct (main_on_trace ms w) as (code & t & Hrun & Hshape).
  rewrite Hrun. cbn [events].
  destruct (loop_trace_pipeline _ _ _ Hshape) as (Ho & Hr & Hl).
  unfold opened_paths, found_paths, read_paths in *.
  rewrite rpcs_app, !omap_app. cbn [opening_events omap list_omap app rpcs].
  repeat split; assumption.
Qed.

End Further.

(** * The properties on the concrete environment *)

Section Runs.
Import Scenario.
Existing Instance env.

(** Section 8, first scenario: [b.sql] is missing, all three entries are
    processed and the process exits with 0. *)
Example run_with_missing_file :
  let r := main_on abc (start fs_b_missing) in
  exit_code r = 0%Z
  /\ returns (events r) = [("a.sql", Applied); ("b.sql", SkippedMissing); ("c.sql", Applied)]
  /\ remote (world r) = ["CREATE TABLE a ();"; "CREATE TABLE c ();"]%string.
Proof. vm_compute. repeat split. Qed.

(** Section 8, second scenario: [b.sql] is rejected, [c.sql] is never
    attempted and the process exits with 1. *)
Example run_with_rejected_file :
  let r := main_on abc (start fs_b_rejected) in
  exit_code r = 1%Z
  /\ calls (events r) = ["a.sql"; "b.sql"]%string
  /\ returns (events r)
     = [("a.sql", Applied); ("b.sql", Failed "syntax error at or near 'BAD'")]
  /\ remote (world r) = ["CREATE TABLE a ();"]%string.
Proof. vm_compute. repeat split. Qed.

(** Text that does not decode stops the run like a rejected query. *)
Example run_with_undecodable_file :
  let r := main_on abc (start fs_b_undecodable) in
  exit_code r = 1%Z
  /\ calls (events r) = ["a.sql"; "b.sql"]%string
  /\ rpcs (events r) = [("exec_sql", [("query", "CREATE TABLE a ();")])]%string.
Proof. vm_compute. repeat split. Qed.

(** The script's own list with every file present. *)
Example run_of_own_list :
  let r := main (start fs_all_present) in
  exit_code r = 0%Z
  /\ calls (events r) = migrations
  /\ length (rpcs (events r)) = 4%nat.
Proof. vm_compute. repeat split. Qed.

(** The second scenario again: the fifteenth event of the run is the remote
    call for [b.sql], which raises. *)
Lemma failed_remote_call_stops_run_witness :
  let t := events (main_on abc (start fs_b_rejected)) in
  let bad := mkException "APIError" "syntax error at or near 'BAD'" in
  t = take 14 t ++ EvRpc "exec_sql" [("query", "BAD TABLE b;")] (Some bad) :: drop 15 t
  /\ calls (drop 15 t) = []
  /\ exit_code (main_on abc (start fs_b_rejected)) = 1%Z.
Proof.
  cbv zeta. split.
  - vm_compute. reflexivity.
  - pose proof (failed_remote_call_stops_run abc (start fs_b_rejected)
                  (take 14 (events (main_on abc (start fs_b_rejected))))
                  "exec_sql" [("query", "BAD TABLE b;")]
                  (mkException "APIError" "syntax error at or near 'BAD'")
                  (drop 15 (events (main_on abc (start fs_b_rejected))))) as Hstop.
    destruct Hstop as (Hcalls & _ & Hexit & _).
    + vm_compute. reflexivity.
    + split; assumption.
Defined.

(** [b.sql] is read and rejected by the remote. *)
Lemma remote_exception_becomes_failed_witness :
  result (run_migration "b.sql" (start fs_b_rejected)) = Ok false
  /\ returns (events (run_migration "b.sql" (start fs_b_rejected)))
     = [("b.sql", Failed "syntax error at or near 'BAD'")].
Proof.
  rewrite (remote_exception_becomes_failed "b.sql" (start fs_b_rejected)
             (file "BAD TABLE b;") "BAD TABLE b;" []
             (mkException "APIError" "syntax error at or near 'BAD'")).
  - split; reflexivity.
  - vm_compute. reflexivity.
  - reflexivity.
  - reflexivity.
Defined.

(** [a.sql] is there and its text is what is submitted. *)
Lemma whole_file_text_submitted_witness :
  fs (start fs_b_missing) !! joinpath migrations_dir "a.sql"
    = Some (Regular true (Ok "CREATE TABLE a ();"%string))
  /\ remote (world (run_migration "a.sql" (start fs_b_missing)))
     = ["CREATE TABLE a ();"]%string
  /\ rpcs (events (run_migration "a.sql" (start fs_b_missing)))
     = [("exec_sql", [("query", "CREATE TABLE a ();")])]%string.
Proof.
  split; [vm_compute; reflexivity|].
  destruct (whole_file_text_submitted "a.sql" (start fs_b_missing) "CREATE TABLE a ();")
    as (Hworld & _ & Hrpcs & _).
  - vm_compute. reflexivity.
  - split; [rewrite Hworld; reflexivity|exact Hrpcs].
Defined.

(** [b.sql] names a directory: [open] raises and the run stops. *)
Lemma unreadable_file_becomes_failed_witness :
  let path := joinpath migrations_dir "b.sql" in
  fs (start fs_b_directory) !! path = Some Directory
  /\ read_text path Directory = Raise (IsADirectoryError path)
  /\ returns (events (run_migration "b.sql" (start fs_b_directory)))
     = [("b.sql", Failed (str (IsADirectoryError path)))]
  /\ exit_code (main_loop ["b.sql"; "c.sql"] (start fs_b_directory)) = 1%Z.
Proof.
  cbv zeta. split; [vm_compute; reflexivity|]. split; [reflexivity|].
  destruct (unreadable_file_becomes_failed "b.sql" ["c.sql"] (start fs_b_directory)
              Directory (IsADirectoryError (joinpath migrations_dir "b.sql")))
    as (_ & _ & Hret & _ & _ & Hexit).
  - vm_compute. reflexivity.
  - reflexivity.
  - split; assumption.
Defined.


(** [a.sql] alone runs to its end; [b.sql] (missing) and [c.sql] follow it. *)
Lemma main_loop_app_completed_witness :
  exit_code (main_loop ["a.sql"] (start fs_b_missing)) = 0%Z
  /\ exists body,
       events (main_loop ["a.sql"] (start fs_b_missing)) = body ++ closing_events
       /\ main_loop (["a.sql"] ++ ["b.sql"; "c.sql"]) (start fs_b_missing) =
            Ran (result (main_loop ["b.sql"; "c.sql"]
                           (world (main_loop ["a.sql"] (start fs_b_missing)))))
                (world (main_loop ["b.sql"; "c.sql"]
                          (world (main_loop ["a.sql"] (start fs_b_missing)))))
                (body ++ events (main_loop ["b.sql"; "c.sql"]
                                   (world (main_loop ["a.sql"] (start fs_b_missing))))).
Proof.
  split.
  - vm_compute. reflexivity.
  - apply (main_loop_app_completed ["a.sql"] ["b.sql"; "c.sql"] (start fs_b_missing)).
    vm_compute. reflexivity.
Defined.

(** The loop stops at the rejected [b.sql]; appending [c.sql] changes nothing. *)
Lemma main_loop_app_stopped_witness :
  exit_code (main_loop ["a.sql"; "b.sql"] (start fs_b_rejected)) = 1%Z
  /\ main_loop (["a.sql"; "b.sql"] ++ ["c.sql"]) (start fs_b_rejected)
     = main_loop ["a.sql"; "b.sql"] (start fs_b_rejected).
Proof.
  split.
  - vm_compute. reflexivity.
  - apply (main_loop_app_stopped ["a.sql"; "b.sql"] ["c.sql"] (start fs_b_rejected)).
    vm_compute. reflexivity.
Defined.

(** Two runs in a row with [b.sql] missing: the second submits [a.sql] and
    [c.sql] again. *)
Lemma rerun_submits_again_witness :
  exit_code (main_on abc (start fs_b_missing)) = 0%Z
  /\ rpcs (events (main_on abc (world (main_on abc (start fs_b_missing)))))
     = rpcs (events (main_on abc (start fs_b_missing)))
  /\ remote (world (main_on abc (world (main_on abc (start fs_b_missing)))))
     = [ "CREATE TABLE a ();"; "CREATE TABLE c ();";
         "CREATE TABLE a ();"; "CREATE TABLE c ();" ]%string.
Proof.
  split; [vm_compute; reflexivity|]. split.
  - apply (rerun_submits_again abc (start fs_b_missing)); vm_compute; reflexivity.
  - vm_compute. reflexivity.
Defined.

End Runs.
